(** * crud: a generic data-access helper over the bun query builder

    Shallow embedding of [crud.go] (and of its copy in [crud/crud.go]):
    the [Filter] structure, the filter compiler [applyFilter] and the
    CRUD methods that delegate to the store.

    A [*bun.SelectQuery] is a pointer to a mutable builder: every builder
    method mutates the object it is called on and hands the same pointer
    back.  The embedding keeps that aliasing: a query handle is a location
    in a heap, and the object stored there is the sequence of builder
    calls made on it so far.  The store behind [*bun.DB] is an oracle that
    answers each call from the history of the calls already sent. *)

From Stdlib Require Import ZArith Sorted.
From stdpp Require Import gmap strings list fin_maps.

Local Open Scope Z_scope.

(** ** Go values and errors *)

(** An [interface{}] argument: the dynamic types a [Filter] carries, and
    any other value (a caller of [GetBy] may pass one) by its printed form.
    Go's [int] and [int64] are carried as [Z]: the code compares them with
    zero and hands them on, it computes nothing with them. *)
Inductive any : Type :=
| AnyInt (n : Z)
| AnyInt64 (n : Z)
| AnyString (s : string)
| AnyOther (repr : string).

(** An [error] is either produced by the store or is a [%w] wrapper. *)
Inductive error : Type :=
| StoreError (msg : string)
| WrapError (msg : string) (cause : error).

Definition Error (e : error) : string :=
  match e with
  | StoreError msg => msg
  | WrapError msg _ => msg
  end.

Definition Unwrap (e : error) : option error :=
  match e with
  | StoreError _ => None
  | WrapError _ cause => Some cause
  end.

(** [sql.ErrNoRows], what a scan of an empty result set reports. *)
Definition ErrNoRows : error := StoreError "sql: no rows in result set".

Module fmt.

(** [fmt.Sprintf("%s = ?", key)] *)
Definition Sprintf_eq (key : string) : string := key +:+ " = ?".

(** [fmt.Errorf(prefix + "%w", err)] *)
Definition Errorf (prefix : string) (err : error) : error :=
  WrapError (prefix +:+ Error err) err.

End fmt.

(** ** The query builder and the store *)

Module bun.

(** What [Model] was given: the address of one record or of a slice. *)
Inductive Dest : Type := DestStruct | DestSlice.

(** One builder call on a [SelectQuery]. *)
Inductive Directive : Type :=
  | DModel (d : Dest)
  | DOrder (s : string)
  | DLimit (n : Z)
  | DOffset (n : Z)
  | DWhere (query : string) (arg : any)
  | DWhereOr (query : string) (arg : any).

(** A [*bun.SelectQuery]: the address of a builder object. *)
Abbreviation SelectQuery := positive (only parsing).

Section Store.
Context {T : Type}.

(** One statement executed against the store. *)
Inductive Call : Type :=
  | ExecInsert (a : T)
  | ExecUpdate (a : T)
  | ExecDelete (query : string) (arg : any)
  | ScanModel (q : list Directive)
  | ScanInt64 (q : list Directive).

(** The store: what the statement answers after the given history.
    A scan reports what it left in its destination and its error. *)
Class DB : Type := {
  exec : list Call -> Call -> option error;
  scan_rows : list Call -> list Directive -> list T * option error;
  scan_row : list Call -> list Directive -> T * option error;
  scan_int64 : list Call -> list Directive -> Z * option error
}.

Record World : Type := {
  heap : gmap positive (list Directive);
  sent : list Call
}.

(** Computations over the world; [None] is a nil-pointer panic. *)
Definition M (A : Type) : Type := World -> option (A * World).

Definition ret {A} (a : A) : M A := fun w => Some (a, w).

Definition bind {A B} (m : M A) (k : A -> M B) : M B :=
  fun w => match m w with
           | Some (a, w') => k a w'
           | None => None
           end.

Definition set_log (q : SelectQuery) (log : list Directive) (w : World) : World :=
  {| heap := <[q := log]> (heap w); sent := sent w |}.

Definition send (c : Call) (w : World) : World :=
  {| heap := heap w; sent := sent w ++ [c] |}.

(** A builder method: mutate the object and return the receiver. *)
Definition record (q : SelectQuery) (d : Directive) : M SelectQuery :=
  fun w => match heap w !! q with
           | Some log => Some (q, set_log q (log ++ [d]) w)
           | None => None
           end.

Definition NewSelect : M SelectQuery :=
  fun w => let q := fresh (dom (heap w)) in Some (q, set_log q [] w).

Definition Model (q : SelectQuery) (d : Dest) : M SelectQuery := record q (DModel d).
Definition Order (q : SelectQuery) (s : string) : M SelectQuery := record q (DOrder s).
Definition Limit (q : SelectQuery) (n : Z) : M SelectQuery := record q (DLimit n).
Definition Offset (q : SelectQuery) (n : Z) : M SelectQuery := record q (DOffset n).
Definition Where (q : SelectQuery) (query : string) (arg : any) : M SelectQuery :=
  record q (DWhere query arg).
Definition WhereOr (q : SelectQuery) (query : string) (arg : any) : M SelectQuery :=
  record q (DWhereOr query arg).

(** [NewInsert().Model(a).Exec(ctx)] and its siblings: the [sql.Result]
    is dropped by every caller, the error is what remains. *)
Definition Exec `{DB} (c : Call) : M (option error) :=
  fun w => Some (exec (sent w) c, send c w).

(** [q.Scan(ctx)] into the slice given to [Model]. *)
Definition ScanRows `{DB} (q : SelectQuery) : M (list T * option error) :=
  fun w => match heap w !! q with
           | Some log => Some (scan_rows (sent w) log, send (ScanModel log) w)
           | None => None
           end.

(** [q.Scan(ctx)] into the record given to [Model]. *)
Definition ScanRow `{DB} (q : SelectQuery) : M (T * option error) :=
  fun w => match heap w !! q with
           | Some log => Some (scan_row (sent w) log, send (ScanModel log) w)
           | None => None
           end.

(** [q.Scan(ctx, &id)] with an [int64] destination. *)
Definition ScanId `{DB} (q : SelectQuery) : M (Z * option error) :=
  fun w => match heap w !! q with
           | Some log => Some (scan_int64 (sent w) log, send (ScanInt64 log) w)
           | None => None
           end.

End Store.

Arguments Call : clear implicits.
Arguments DB : clear implicits.
Arguments World : clear implicits.
Arguments M : clear implicits.

End bun.

Notation "x <- m ;; k" := (bun.bind m (fun x => k))
  (at level 100, m at next level, right associativity).

(** [for _, kv := range xs { query = body(query, kv) }] *)
Fixpoint range {T A} (xs : list A) (query : bun.SelectQuery)
    (body : bun.SelectQuery -> A -> bun.M T bun.SelectQuery) : bun.M T bun.SelectQuery :=
  match xs with
  | [] => bun.ret query
  | kv :: xs' => query' <- body query kv ;; range xs' query' body
  end.

(** ** Filters *)

Record KV (V : Type) : Type := { Key : string; Value : V }.
Arguments Key {V} _.
Arguments Value {V} _.

Record Filter : Type := {
  OrInt64 : list (KV Z);
  OrInt : list (KV Z);
  OrString : list (KV string);
  AndInt : list (KV Z);
  AndInt64 : list (KV Z);
  AndString : list (KV string);
  WhereInt : list (KV Z);
  WhereInt64 : list (KV Z);
  WhereString : list (KV string);
  Limit : Z;
  Offset : Z
}.

(** The zero value of [Filter]. *)
Definition Filter_zero : Filter :=
  {| OrInt64 := []; OrInt := []; OrString := [];
     AndInt := []; AndInt64 := []; AndString := [];
     WhereInt := []; WhereInt64 := []; WhereString := [];
     Limit := 0; Offset := 0 |}.

Section Compiler.
Context {T : Type}.

(** applyFilter applies the filter conditions to the query. *)
Definition applyFilter (query : bun.SelectQuery) (filter : Filter) : bun.M T bun.SelectQuery :=
  query <- (if 0 <? Limit filter then bun.Limit query (Limit filter) else bun.ret query) ;;
  query <- (if 0 <? Offset filter then bun.Offset query (Offset filter) else bun.ret query) ;;
  query <- range (AndInt filter) query (fun query kv =>
             bun.Where query (fmt.Sprintf_eq (Key kv)) (AnyInt (Value kv))) ;;
  query <- range (AndInt64 filter) query (fun query kv =>
             bun.Where query (fmt.Sprintf_eq (Key kv)) (AnyInt64 (Value kv))) ;;
  query <- range (AndString filter) query (fun query kv =>
             bun.Where query (fmt.Sprintf_eq (Key kv)) (AnyString (Value kv))) ;;
  query <- range (OrInt filter) query (fun query kv =>
             bun.WhereOr query (fmt.Sprintf_eq (Key kv)) (AnyInt (Value kv))) ;;
  query <- range (OrInt64 filter) query (fun query kv =>
             bun.WhereOr query (fmt.Sprintf_eq (Key kv)) (AnyInt64 (Value kv))) ;;
  query <- range (OrString filter) query (fun query kv =>
             bun.WhereOr query (fmt.Sprintf_eq (Key kv)) (AnyString (Value kv))) ;;
  query <- range (WhereInt filter) query (fun query kv =>
             bun.Where query (fmt.Sprintf_eq (Key kv)) (AnyInt (Value kv))) ;;
  query <- range (WhereInt64 filter) query (fun query kv =>
             bun.Where query (fmt.Sprintf_eq (Key kv)) (AnyInt64 (Value kv))) ;;
  query <- range (WhereString filter) query (fun query kv =>
             bun.Where query (fmt.Sprintf_eq (Key kv)) (AnyString (Value kv))) ;;
  bun.ret query.

End Compiler.

(** Filters *)

Definition WhereEmailFilter (email : string) : Filter :=
  {| OrInt64 := []; OrInt := []; OrString := [];
     AndInt := []; AndInt64 := []; AndString := [];
     WhereInt := []; WhereInt64 := [];
     WhereString := [ {| Key := "email"; Value := email |} ];
     Limit := 0; Offset := 0 |}.

Definition WhereIdFilter (id : Z) : Filter :=
  {| OrInt64 := []; OrInt := []; OrString := [];
     AndInt := []; AndInt64 := []; AndString := [];
     WhereInt := [];
     WhereInt64 := [ {| Key := "id"; Value := id |} ];
     WhereString := [];
     Limit := 0; Offset := 0 |}.

Definition WhereSlugFilter (slug : string) : Filter :=
  {| OrInt64 := []; OrInt := []; OrString := [];
     AndInt := []; AndInt64 := []; AndString := [];
     WhereInt := []; WhereInt64 := [];
     WhereString := [ {| Key := "slug"; Value := slug |} ];
     Limit := 0; Offset := 0 |}.

Definition WhereSlugOrId (slug : string) (id : Z) : Filter :=
  {| OrInt64 := []; OrInt := []; OrString := [];
     AndInt := []; AndInt64 := []; AndString := [];
     WhereInt := [];
     WhereString := [ {| Key := "slug"; Value := slug |} ];
     WhereInt64 := [ {| Key := "id"; Value := id |} ];
     Limit := 0; Offset := 0 |}.

(** ** The CRUD methods *)

Module CRUD.
Section Methods.
Context {T : Type} `{db : bun.DB T}.

(** Add inserts a new record using Bun's NewInsert. *)
Definition Add (a : T) : bun.M T (option error) :=
  err <- bun.Exec (bun.ExecInsert a) ;;
  match err with
  | Some err => bun.ret (Some (fmt.Errorf "insert error: " err))
  | None => bun.ret None
  end.

(** [Create] is the name [Add] has in [crud/crud.go]. *)
Definition Create (a : T) : bun.M T (option error) :=
  err <- bun.Exec (bun.ExecInsert a) ;;
  match err with
  | Some err => bun.ret (Some (fmt.Errorf "insert error: " err))
  | None => bun.ret None
  end.

(** Update modifies an existing record. *)
Definition Update (a : T) : bun.M T (option error) :=
  err <- bun.Exec (bun.ExecUpdate a) ;;
  match err with
  | Some err => bun.ret (Some (fmt.Errorf "update error: " err))
  | None => bun.ret None
  end.

(** Delete removes a record by its id. *)
Definition Delete (id : Z) : bun.M T (option error) :=
  err <- bun.Exec (bun.ExecDelete "id = ?" (AnyInt64 id)) ;;
  match err with
  | Some err => bun.ret (Some (fmt.Errorf "delete error: " err))
  | None => bun.ret None
  end.

(** List retrieves multiple records based on the provided filter. *)
Definition List (filter : Filter) : bun.M T (list T * option error) :=
  query <- bun.NewSelect ;;
  query <- bun.Model query bun.DestSlice ;;
  query <- bun.Order query "id DESC" ;;
  query <- applyFilter query filter ;;
  r <- bun.ScanRows query ;;
  match r with
  | (_, Some err) => bun.ret ([], Some (fmt.Errorf "list error: " err))
  | (results, None) => bun.ret (results, None)
  end.

(** Get retrieves a single record based on the provided filter. *)
Definition Get (filter : Filter) : bun.M T (T * option error) :=
  query <- bun.NewSelect ;;
  query <- bun.Model query bun.DestStruct ;;
  query <- applyFilter query filter ;;
  r <- bun.ScanRow query ;;
  match r with
  | (result, Some err) => bun.ret (result, Some (fmt.Errorf "get error: " err))
  | (result, None) => bun.ret (result, None)
  end.

Definition Exists (filter : Filter) : bun.M T bool :=
  query <- bun.NewSelect ;;
  query <- bun.Model query bun.DestStruct ;;
  query <- applyFilter query filter ;;
  r <- bun.ScanId query ;;
  match r with
  | (_, Some _) => bun.ret false
  | (id, None) => bun.ret (0 <? id)
  end.

(** GetBy retrieves a single record that matches the given field and value. *)
Definition GetBy (field : string) (value : any) : bun.M T (T * option error) :=
  let condition := fmt.Sprintf_eq field in
  query <- bun.NewSelect ;;
  query <- bun.Model query bun.DestStruct ;;
  query <- bun.Where query condition value ;;
  r <- bun.ScanRow query ;;
  match r with
  | (result, Some err) => bun.ret (result, Some (fmt.Errorf "getBy error: " err))
  | (result, None) => bun.ret (result, None)
  end.

End Methods.
End CRUD.

(** ** Observations on a query's accumulated calls *)

(** The equality predicate a condition compiles to. *)
Definition and_pred {V} (inj : V -> any) (kv : KV V) : bun.Directive :=
  bun.DWhere (fmt.Sprintf_eq (Key kv)) (inj (Value kv)).

Definition or_pred {V} (inj : V -> any) (kv : KV V) : bun.Directive :=
  bun.DWhereOr (fmt.Sprintf_eq (Key kv)) (inj (Value kv)).

Definition limit_clause (f : Filter) : list bun.Directive :=
  if 0 <? Limit f then [bun.DLimit (Limit f)] else [].

Definition offset_clause (f : Filter) : list bun.Directive :=
  if 0 <? Offset f then [bun.DOffset (Offset f)] else [].

Definition and_groups (f : Filter) : list bun.Directive :=
  map (and_pred AnyInt) (AndInt f) ++ map (and_pred AnyInt64) (AndInt64 f)
    ++ map (and_pred AnyString) (AndString f).

Definition or_groups (f : Filter) : list bun.Directive :=
  map (or_pred AnyInt) (OrInt f) ++ map (or_pred AnyInt64) (OrInt64 f)
    ++ map (or_pred AnyString) (OrString f).

Definition where_groups (f : Filter) : list bun.Directive :=
  map (and_pred AnyInt) (WhereInt f) ++ map (and_pred AnyInt64) (WhereInt64 f)
    ++ map (and_pred AnyString) (WhereString f).

(** The calls a filter stands for, as one sequence. *)
Definition filter_directives (f : Filter) : list bun.Directive :=
  limit_clause f ++ offset_clause f ++ and_groups f ++ or_groups f ++ where_groups f.

Definition is_conjunctive (d : bun.Directive) : bool :=
  match d with bun.DWhere _ _ => true | _ => false end.

Definition is_disjunctive (d : bun.Directive) : bool :=
  match d with bun.DWhereOr _ _ => true | _ => false end.

Definition is_limit (d : bun.Directive) : bool :=
  match d with bun.DLimit _ => true | _ => false end.

Definition is_offset (d : bun.Directive) : bool :=
  match d with bun.DOffset _ => true | _ => false end.

(** The strings given to [Order], in call order. *)
Fixpoint order_by (ds : list bun.Directive) : list string :=
  match ds with
  | [] => []
  | bun.DOrder s :: ds' => s :: order_by ds'
  | _ :: ds' => order_by ds'
  end.

(** The filter with every WHERE-group moved into the AND-group of its type. *)
Definition where_as_and (f : Filter) : Filter :=
  {| OrInt64 := OrInt64 f; OrInt := OrInt f; OrString := OrString f;
     AndInt := WhereInt f; AndInt64 := WhereInt64 f; AndString := WhereString f;
     WhereInt := []; WhereInt64 := []; WhereString := [];
     Limit := Limit f; Offset := Offset f |}.

(** The accumulated calls of handle [q] once a computation has run. *)
Definition log_after {T A} (q : bun.SelectQuery) (r : option (A * bun.World T))
    : option (list bun.Directive) :=
  match r with
  | Some (_, w) => bun.heap w !! q
  | None => None
  end.

(** The query [List] builds before it scans. *)
Definition list_query (f : Filter) : list bun.Directive :=
  bun.DModel bun.DestSlice :: bun.DOrder "id DESC" :: filter_directives f.

(** The query [Get] and [Exists] build before they scan. *)
Definition get_query (f : Filter) : list bun.Directive :=
  bun.DModel bun.DestStruct :: filter_directives f.

Definition getBy_query (field : string) (value : any) : list bun.Directive :=
  [bun.DModel bun.DestStruct; bun.DWhere (fmt.Sprintf_eq field) value].

(** The world once a fresh handle has been filled with [q] and scanned. *)
Definition scanned {T} (q : list bun.Directive) (w : bun.World T) : bun.World T :=
  bun.send (bun.ScanModel q) (bun.set_log (fresh (dom (bun.heap w))) q w).


(** The calls [applyFilter] is written to make. *)
Definition is_filter_call (d : bun.Directive) : bool :=
  is_limit d || is_offset d || is_conjunctive d || is_disjunctive d.

(** What a caller is owed when one store call decides the outcome. *)
Definition wraps (prefix : string) (store_err returned : option error) : Prop :=
  (is_Some returned <-> is_Some store_err) /\
  forall e, store_err = Some e ->
    exists e', returned = Some e' /\ Unwrap e' = Some e /\ Error e' = prefix +:+ Error e.

(** A store that sorts by descending id when that is the one ordering asked for. *)
Definition honours_id_desc {T} `{db : bun.DB T} (id_of : T -> Z) : Prop :=
  forall hist q rows,
    order_by q = ["id DESC"%string] ->
    fst (bun.scan_rows hist q) = rows ->
    snd (bun.scan_rows hist q) = None ->
    Sorted (fun a b => id_of b <= id_of a) rows.

(** ** Fixtures: two small stores over records that are their own id *)

Module Fixture.

Definition has_order (q : list bun.Directive) : bool :=
  match order_by q with [] => false | _ => true end.

(** Three rows, served in descending id order on request. *)
Definition table_db : bun.DB Z :=
  {| bun.exec := fun _ _ => None;
     bun.scan_rows := fun _ q => (if has_order q then [3; 2; 1] else [1; 2; 3], None);
     bun.scan_row := fun _ _ => (1, None);
     bun.scan_int64 := fun _ _ => (1, None) |}.

(** An empty table behind a connection that reports no rows. *)
Definition empty_db : bun.DB Z :=
  {| bun.exec := fun _ _ => Some ErrNoRows;
     bun.scan_rows := fun _ _ => ([], Some ErrNoRows);
     bun.scan_row := fun _ _ => (0, Some ErrNoRows);
     bun.scan_int64 := fun _ _ => (0, Some ErrNoRows) |}.

Definition world0 : bun.World Z := {| bun.heap := ∅; bun.sent := [] |}.

(** A world with one live handle that has seen no call yet. *)
Definition world1 : bun.World Z := {| bun.heap := {[ 1%positive := [] ]}; bun.sent := [] |}.

Definition page (limit offset : Z) : Filter :=
  {| OrInt64 := []; OrInt := []; OrString := [];
     AndInt := []; AndInt64 := []; AndString := [];
     WhereInt := []; WhereInt64 := []; WhereString := [];
     Limit := limit; Offset := offset |}.

Definition mixed : Filter :=
  {| OrInt64 := [ {| Key := "owner"; Value := 7 |} ];
     OrInt := [];
     OrString := [ {| Key := "x"; Value := "p" |}; {| Key := "y"; Value := "q" |} ];
     AndInt := [ {| Key := "a"; Value := 1 |}; {| Key := "b"; Value := 2 |} ];
     AndInt64 := [];
     AndString := [ {| Key := "kind"; Value := "book" |} ];
     WhereInt := [];
     WhereInt64 := [ {| Key := "id"; Value := 42 |} ];
     WhereString := [ {| Key := "slug"; Value := "abc" |} ];
     Limit := 10; Offset := 20 |}.

(** A connection that breaks after two rows have been read. *)
Definition flaky_db : bun.DB Z :=
  {| bun.exec := fun _ _ => Some (StoreError "connection reset");
     bun.scan_rows := fun _ _ => ([2; 1], Some (StoreError "connection reset"));
     bun.scan_row := fun _ _ => (2, Some (StoreError "connection reset"));
     bun.scan_int64 := fun _ _ => (2, Some (StoreError "connection reset")) |}.

(** A world with two live handles and one statement already sent. *)
Definition world2 : bun.World Z :=
  {| bun.heap := {[ 1%positive := [bun.DModel bun.DestStruct];
                    2%positive := [bun.DOrder "id DESC"] ]};
     bun.sent := [bun.ExecInsert 3] |}.

(** Only an OR-group. *)
Definition or_only : Filter :=
  {| OrInt64 := []; OrInt := [];
     OrString := [ {| Key := "x"; Value := "p" |}; {| Key := "y"; Value := "q" |} ];
     AndInt := []; AndInt64 := []; AndString := [];
     WhereInt := []; WhereInt64 := []; WhereString := [];
     Limit := 0; Offset := 0 |}.

End Fixture.

(** ** Laws of the world and of the builder *)

Section Laws.
Context {T : Type}.
Implicit Types (w : bun.World T) (q : bun.SelectQuery) (log ds : list bun.Directive).

Lemma set_log_lookup q log w : bun.heap (bun.set_log q log w) !! q = Some log.
Proof. unfold bun.set_log; simpl. apply lookup_insert_eq. Qed.

Lemma set_log_lookup_ne q q' log w :
  q <> q' -> bun.heap (bun.set_log q log w) !! q' = bun.heap w !! q'.
Proof. intros Hne. unfold bun.set_log; simpl. by apply lookup_insert_ne. Qed.

Lemma set_log_twice q log log' w :
  bun.set_log q log' (bun.set_log q log w) = bun.set_log q log' w.
Proof. unfold bun.set_log; simpl. by rewrite insert_insert_eq. Qed.

Lemma set_log_same q log w : bun.heap w !! q = Some log -> bun.set_log q log w = w.
Proof.
  intros Hq. destruct w as [h s]; unfold bun.set_log; simpl in *.
  by rewrite insert_id.
Qed.

Lemma set_log_sent q log w : bun.sent (bun.set_log q log w) = bun.sent w.
Proof. reflexivity. Qed.

Lemma fresh_handle_dead w : bun.heap w !! fresh (dom (bun.heap w)) = None.
Proof. apply not_elem_of_dom. apply is_fresh. Qed.

Lemma bind_ret_r {A} (m : bun.M T A) w : bun.bind m (fun a => bun.ret a) w = m w.
Proof. unfold bun.bind, bun.ret. by destruct (m w) as [[a w']|]. Qed.

Lemma bind_cong {A B} (m m' : bun.M T A) (k k' : A -> bun.M T B) w :
  m w = m' w -> (forall a w', k a w' = k' a w') -> bun.bind m k w = bun.bind m' k' w.
Proof.
  intros Hm Hk. unfold bun.bind. rewrite Hm.
  destruct (m' w) as [[a w']|]; [apply Hk | reflexivity].
Qed.

Lemma record_live q d log w :
  bun.heap w !! q = Some log ->
  bun.record q d w = Some (q, bun.set_log q (log ++ [d]) w).
Proof. intros Hq. unfold bun.record. by rewrite Hq. Qed.

(** A run of builder calls on a live handle appends them and keeps the handle. *)
Lemma range_record_live ds : forall q log w,
  bun.heap w !! q = Some log ->
  range ds q bun.record w = Some (q, bun.set_log q (log ++ ds) w).
Proof.
  induction ds as [|d ds IH]; intros q log w Hq; simpl.
  - unfold bun.ret. by rewrite app_nil_r, set_log_same.
  - unfold bun.bind. rewrite (record_live _ _ _ _ Hq).
    rewrite (IH q (log ++ [d])) by apply set_log_lookup.
    by rewrite set_log_twice, <- app_assoc.
Qed.

(** On a dangling handle the first call panics; no call, no panic. *)
Lemma range_record_dead ds q w :
  bun.heap w !! q = None ->
  range ds q bun.record w = match ds with [] => Some (q, w) | _ => None end.
Proof.
  intros Hq. destruct ds as [|d ds]; simpl; [reflexivity|].
  unfold bun.bind, bun.record. by rewrite Hq.
Qed.

Lemma range_map {A} (g : A -> bun.Directive) (xs : list A) : forall q w,
  range xs q (fun q kv => bun.record q (g kv)) w = range (map g xs) q bun.record w.
Proof.
  induction xs as [|x xs IH]; intros q w; simpl; [reflexivity|].
  apply bind_cong; [reflexivity | intros; apply IH].
Qed.

Lemma range_app ds ds' : forall q w,
  range (ds ++ ds') q bun.record w
  = bun.bind (range ds q bun.record) (fun q' => range ds' q' bun.record) w.
Proof.
  induction ds as [|d ds IH]; intros q w; simpl; [reflexivity|].
  unfold bun.bind at 1 2 3. destruct (bun.record q d w) as [[q' w']|]; [|reflexivity].
  rewrite IH. reflexivity.
Qed.

Lemma clause_step (c : bool) d q w :
  (if c then bun.record q d else bun.ret q) w
  = range (if c then [d] else []) q bun.record w.
Proof. destruct c; simpl; [symmetry; apply bind_ret_r | reflexivity]. Qed.

(** The compiler is the replay of [filter_directives] on the handle. *)
Lemma applyFilter_replay f q w :
  applyFilter q f w = range (filter_directives f) q bun.record w.
Proof.
  unfold applyFilter, filter_directives, and_groups, or_groups, where_groups.
  rewrite <- !app_assoc.
  rewrite range_app; apply bind_cong; [apply clause_step | clear q w; intros q w].
  rewrite range_app; apply bind_cong; [apply clause_step | clear q w; intros q w].
  do 8 (rewrite range_app; apply bind_cong;
        [apply (range_map (and_pred _)) || apply (range_map (or_pred _))
        | clear q w; intros q w]).
  rewrite bind_ret_r. apply (range_map (and_pred _)).
Qed.

Lemma applyFilter_live f q log w :
  bun.heap w !! q = Some log ->
  applyFilter q f w = Some (q, bun.set_log q (log ++ filter_directives f) w).
Proof. intros Hq. rewrite applyFilter_replay. by apply range_record_live. Qed.

End Laws.

(** ** What each CRUD method does to the world *)

Ltac run_builder :=
  unfold bun.bind, bun.NewSelect, bun.Model, bun.Order, bun.Where;
  repeat first
    [ rewrite set_log_twice
    | erewrite record_live by apply set_log_lookup
    | erewrite applyFilter_live by apply set_log_lookup ];
  unfold bun.ScanRows, bun.ScanRow, bun.ScanId;
  rewrite ?set_log_lookup, ?set_log_sent; cbn [app].

Section Runs.
Context {T : Type} `{db : bun.DB T}.
Implicit Types (w : bun.World T) (f : Filter).

Lemma exec_run (prefix : string) (c : bun.Call T) w :
  (err <- bun.Exec c ;;
   match err with
   | Some err => bun.ret (Some (fmt.Errorf prefix err))
   | None => bun.ret None
   end) w
  = Some (fmt.Errorf prefix <$> bun.exec (bun.sent w) c, bun.send c w).
Proof. unfold bun.bind, bun.Exec. by destruct (bun.exec (bun.sent w) c). Qed.

Lemma List_run f w :
  CRUD.List f w
  = Some (match bun.scan_rows (bun.sent w) (list_query f) with
          | (_, Some err) => ([], Some (fmt.Errorf "list error: " err))
          | (results, None) => (results, None)
          end, scanned (list_query f) w).
Proof.
  unfold CRUD.List. run_builder. fold (list_query f).
  by destruct (bun.scan_rows (bun.sent w) (list_query f)) as [rows [err|]].
Qed.

Lemma Get_run f w :
  CRUD.Get f w
  = Some (match bun.scan_row (bun.sent w) (get_query f) with
          | (result, Some err) => (result, Some (fmt.Errorf "get error: " err))
          | (result, None) => (result, None)
          end, scanned (get_query f) w).
Proof.
  unfold CRUD.Get. run_builder. fold (get_query f).
  by destruct (bun.scan_row (bun.sent w) (get_query f)) as [row [err|]].
Qed.

Lemma GetBy_run field value w :
  CRUD.GetBy field value w
  = Some (match bun.scan_row (bun.sent w) (getBy_query field value) with
          | (result, Some err) => (result, Some (fmt.Errorf "getBy error: " err))
          | (result, None) => (result, None)
          end, scanned (getBy_query field value) w).
Proof.
  unfold CRUD.GetBy. run_builder. fold (getBy_query field value).
  by destruct (bun.scan_row (bun.sent w) (getBy_query field value)) as [row [err|]].
Qed.

Lemma Exists_run f w :
  CRUD.Exists f w
  = Some (match bun.scan_int64 (bun.sent w) (get_query f) with
          | (_, Some _) => false
          | (id, None) => 0 <? id
          end,
          bun.send (bun.ScanInt64 (get_query f))
                   (bun.set_log (fresh (dom (bun.heap w))) (get_query f) w)).
Proof.
  unfold CRUD.Exists. run_builder. fold (get_query f).
  by destruct (bun.scan_int64 (bun.sent w) (get_query f)) as [id [err|]].
Qed.

Lemma wraps_Errorf (prefix : string) (store_err : option error) :
  wraps prefix store_err (fmt.Errorf prefix <$> store_err).
Proof.
  split.
  - destruct store_err; simpl; split; intros [x Hx]; try discriminate; by eexists.
  - intros e ->. simpl. eexists. split; [reflexivity|]. split; reflexivity.
Qed.

Lemma order_by_app (ds ds' : list bun.Directive) :
  order_by (ds ++ ds') = order_by ds ++ order_by ds'.
Proof.
  induction ds as [|d ds IH]; simpl; [reflexivity|].
  destruct d; simpl; by rewrite IH.
Qed.

Lemma order_by_map_nil {A} (g : A -> bun.Directive) (xs : list A) :
  (forall x, order_by [g x] = []) -> order_by (map g xs) = [].
Proof.
  intros Hg. induction xs as [|x xs IH]; simpl; [reflexivity|].
  specialize (Hg x). destruct (g x); simpl in *; first [exact IH | discriminate].
Qed.

(** The compiler never asks for an ordering. *)
Lemma order_by_filter f : order_by (filter_directives f) = [].
Proof.
  unfold filter_directives, limit_clause, offset_clause, and_groups, or_groups, where_groups.
  rewrite !order_by_app.
  rewrite !(order_by_map_nil (and_pred _)), !(order_by_map_nil (or_pred _)) by reflexivity.
  destruct (0 <? Limit f), (0 <? Offset f); reflexivity.
Qed.

Lemma order_by_In (ds : list bun.Directive) (s : string) :
  In (bun.DOrder s) ds -> In s (order_by ds).
Proof.
  induction ds as [|d ds IH]; simpl; [tauto|].
  intros [->|Hin]; [by left|].
  destruct d; simpl; auto.
Qed.

End Runs.

(** ** Selecting calls of one kind *)

Section Selecting.
Context {A : Type}.

Lemma filter_map_all (p : bun.Directive -> bool) (g : A -> bun.Directive) (xs : list A) :
  (forall x, p (g x) = true) -> List.filter p (map g xs) = map g xs.
Proof.
  intros Hp. induction xs as [|x xs IH]; simpl; [reflexivity|].
  by rewrite Hp, IH.
Qed.

Lemma filter_map_none (p : bun.Directive -> bool) (g : A -> bun.Directive) (xs : list A) :
  (forall x, p (g x) = false) -> List.filter p (map g xs) = [].
Proof.
  intros Hp. induction xs as [|x xs IH]; simpl; [reflexivity|].
  by rewrite Hp, IH.
Qed.

End Selecting.

Lemma filter_clause (p : bun.Directive -> bool) (c : bool) (d : bun.Directive) :
  List.filter p (if c then [d] else []) = if c && p d then [d] else [].
Proof. destruct c; simpl; [by destruct (p d) | reflexivity]. Qed.

Ltac select_calls :=
  unfold filter_directives, limit_clause, offset_clause, and_groups, or_groups, where_groups;
  rewrite !List.filter_app, !filter_clause;
  repeat first
    [ rewrite (filter_map_all _ (and_pred _)) by reflexivity
    | rewrite (filter_map_all _ (or_pred _)) by reflexivity
    | rewrite (filter_map_none _ (and_pred _)) by reflexivity
    | rewrite (filter_map_none _ (or_pred _)) by reflexivity ];
  cbn [is_conjunctive is_disjunctive is_limit is_offset andb];
  rewrite ?andb_false_r, ?andb_true_r; cbn [app]; rewrite ?app_nil_r.

Lemma conjunctive_filter f :
  List.filter is_conjunctive (filter_directives f) = and_groups f ++ where_groups f.
Proof. by select_calls. Qed.

Lemma disjunctive_filter f :
  List.filter is_disjunctive (filter_directives f) = or_groups f.
Proof. by select_calls. Qed.

Lemma limit_filter f :
  List.filter is_limit (filter_directives f) = limit_clause f.
Proof. by select_calls. Qed.

Lemma offset_filter f :
  List.filter is_offset (filter_directives f) = offset_clause f.
Proof. by select_calls. Qed.

(** * The filter compiler *)

(** C1: on a live handle, [applyFilter] appends its calls to the handle in
    one fixed order: the limit clause (if any), the offset clause (if any),
    the AND-groups, the OR-groups, the WHERE-groups; inside each kind of
    group the int list, then the int64 list, then the string list; inside
    each list the conditions in insertion order.  The handle it returns is
    the one it was given. *)
Theorem applyFilter_fixed_order {T} (f : Filter) (q : bun.SelectQuery)
    (w : bun.World T) (log : list bun.Directive) :
  bun.heap w !! q = Some log ->
  applyFilter q f w
  = Some (q, bun.set_log q
      (log
       ++ (if 0 <? Limit f then [bun.DLimit (Limit f)] else [])
       ++ (if 0 <? Offset f then [bun.DOffset (Offset f)] else [])
       ++ map (and_pred AnyInt) (AndInt f)
       ++ map (and_pred AnyInt64) (AndInt64 f)
       ++ map (and_pred AnyString) (AndString f)
       ++ map (or_pred AnyInt) (OrInt f)
       ++ map (or_pred AnyInt64) (OrInt64 f)
       ++ map (or_pred AnyString) (OrString f)
       ++ map (and_pred AnyInt) (WhereInt f)
       ++ map (and_pred AnyInt64) (WhereInt64 f)
       ++ map (and_pred AnyString) (WhereString f)) w).
Proof.
  intros Hq. rewrite (applyFilter_live f q log w Hq).
  unfold filter_directives, limit_clause, offset_clause, and_groups, or_groups, where_groups.
  by rewrite <- !app_assoc.
Qed.

Lemma applyFilter_fixed_order_witness :
  bun.heap Fixture.world1 !! 1%positive = Some [] /\
  log_after 1%positive (applyFilter 1%positive Fixture.mixed Fixture.world1)
  = Some [ bun.DLimit 10; bun.DOffset 20;
           bun.DWhere "a = ?" (AnyInt 1); bun.DWhere "b = ?" (AnyInt 2);
           bun.DWhere "kind = ?" (AnyString "book");
           bun.DWhereOr "owner = ?" (AnyInt64 7);
           bun.DWhereOr "x = ?" (AnyString "p"); bun.DWhereOr "y = ?" (AnyString "q");
           bun.DWhere "id = ?" (AnyInt64 42); bun.DWhere "slug = ?" (AnyString "abc") ].
Proof.
  split; [reflexivity|].
  rewrite (applyFilter_fixed_order Fixture.mixed 1%positive Fixture.world1 [] eq_refl).
  reflexivity.
Defined.

(** C2, as amended: for the filter with WhereString [("slug","abc")] and
    WhereInt64 [("id",42)] and nothing else, [applyFilter] appends exactly two
    conjunctive predicates, [id = 42] first and [slug = "abc"] second: the
    int64 list of a group is walked before its string list. *)
Theorem slug_or_id_compiles_id_first {T} (q : bun.SelectQuery) (w : bun.World T)
    (log : list bun.Directive) :
  bun.heap w !! q = Some log ->
  applyFilter q (WhereSlugOrId "abc" 42) w
  = Some (q, bun.set_log q
      (log ++ [ bun.DWhere "id = ?" (AnyInt64 42);
                bun.DWhere "slug = ?" (AnyString "abc") ]) w).
Proof. intros Hq. by rewrite (applyFilter_live _ q log w Hq). Qed.

Lemma slug_or_id_compiles_id_first_witness :
  bun.heap Fixture.world1 !! 1%positive = Some [] /\
  applyFilter 1%positive (WhereSlugOrId "abc" 42) Fixture.world1
  = Some (1%positive, bun.set_log 1%positive
      ([] ++ [ bun.DWhere "id = ?" (AnyInt64 42);
               bun.DWhere "slug = ?" (AnyString "abc") ]) Fixture.world1).
Proof.
  split; [reflexivity|].
  apply (slug_or_id_compiles_id_first 1%positive Fixture.world1 []). reflexivity.
Defined.

(** C2, as stated, fails: on a handle that has seen no call, the filter does
    not leave [slug = "abc"] followed by [id = 42]. *)
Lemma slug_first_refuted :
  log_after 1%positive (applyFilter 1%positive (WhereSlugOrId "abc" 42) Fixture.world1)
  <> Some [ bun.DWhere "slug = ?" (AnyString "abc");
            bun.DWhere "id = ?" (AnyInt64 42) ].
Proof. vm_compute. discriminate. Qed.

(** C3: of the calls [applyFilter] appends, the conjunctive predicates are
    one [key = value] per condition of the AND-groups, in insertion order
    (followed by those of the WHERE-groups), and the disjunctive predicates
    are one [key = value] per condition of the OR-groups, in insertion order;
    a filter with only OR-groups appends no conjunctive predicate. *)
Theorem one_predicate_per_condition {T} (f : Filter) (q : bun.SelectQuery)
    (w : bun.World T) (log : list bun.Directive) :
  bun.heap w !! q = Some log ->
  exists added,
    applyFilter q f w = Some (q, bun.set_log q (log ++ added) w) /\
    List.filter is_conjunctive added
    = (map (and_pred AnyInt) (AndInt f) ++ map (and_pred AnyInt64) (AndInt64 f)
         ++ map (and_pred AnyString) (AndString f))
      ++ (map (and_pred AnyInt) (WhereInt f) ++ map (and_pred AnyInt64) (WhereInt64 f)
         ++ map (and_pred AnyString) (WhereString f)) /\
    List.filter is_disjunctive added
    = map (or_pred AnyInt) (OrInt f) ++ map (or_pred AnyInt64) (OrInt64 f)
        ++ map (or_pred AnyString) (OrString f) /\
    (AndInt f = [] -> AndInt64 f = [] -> AndString f = [] ->
     WhereInt f = [] -> WhereInt64 f = [] -> WhereString f = [] ->
     List.filter is_conjunctive added = []).
Proof.
  intros Hq. exists (filter_directives f).
  split; [by apply applyFilter_live|].
  split; [apply conjunctive_filter|].
  split; [apply disjunctive_filter|].
  intros H1 H2 H3 H4 H5 H6. rewrite conjunctive_filter.
  unfold and_groups, where_groups. by rewrite H1, H2, H3, H4, H5, H6.
Qed.

Lemma one_predicate_per_condition_witness :
  bun.heap Fixture.world1 !! 1%positive = Some [] /\
  (exists added,
     applyFilter 1%positive Fixture.mixed Fixture.world1
     = Some (1%positive, bun.set_log 1%positive ([] ++ added) Fixture.world1) /\
     List.filter is_conjunctive added
     = [ bun.DWhere "a = ?" (AnyInt 1); bun.DWhere "b = ?" (AnyInt 2);
         bun.DWhere "kind = ?" (AnyString "book");
         bun.DWhere "id = ?" (AnyInt64 42); bun.DWhere "slug = ?" (AnyString "abc") ] /\
     List.filter is_disjunctive added
     = [ bun.DWhereOr "owner = ?" (AnyInt64 7);
         bun.DWhereOr "x = ?" (AnyString "p"); bun.DWhereOr "y = ?" (AnyString "q") ]) /\
  (exists added,
     applyFilter 1%positive Fixture.or_only Fixture.world1
     = Some (1%positive, bun.set_log 1%positive ([] ++ added) Fixture.world1) /\
     List.filter is_conjunctive added = [] /\
     List.filter is_disjunctive added
     = [ bun.DWhereOr "x = ?" (AnyString "p"); bun.DWhereOr "y = ?" (AnyString "q") ]).
Proof.
  split; [reflexivity|]. split.
  - destruct (one_predicate_per_condition Fixture.mixed 1%positive Fixture.world1 [] eq_refl)
      as (added & Hrun & Hand & Hor & _).
    exists added. split; [exact Hrun|]. split; [exact Hand | exact Hor].
  - destruct (one_predicate_per_condition Fixture.or_only 1%positive Fixture.world1 [] eq_refl)
      as (added & Hrun & _ & Hor & Hnone).
    exists added. split; [exact Hrun|]. split; [|exact Hor].
    apply Hnone; reflexivity.
Defined.

(** C4: [applyFilter] appends a limit directive exactly when [Limit] is
    strictly positive, and then one directive carrying [Limit]; likewise an
    offset directive exactly when [Offset] is strictly positive.  With
    [Limit = 0] and [Offset = 0] it appends neither, and a filter with only a
    positive limit appends that one limit directive and nothing else. *)
Theorem pagination_iff_positive {T} (f : Filter) (q : bun.SelectQuery)
    (w : bun.World T) (log : list bun.Directive) :
  bun.heap w !! q = Some log ->
  exists added,
    applyFilter q f w = Some (q, bun.set_log q (log ++ added) w) /\
    (forall n, In (bun.DLimit n) added <-> 0 < Limit f /\ n = Limit f) /\
    (forall n, In (bun.DOffset n) added <-> 0 < Offset f /\ n = Offset f) /\
    List.filter is_limit added
    = (if 0 <? Limit f then [bun.DLimit (Limit f)] else []) /\
    List.filter is_offset added
    = (if 0 <? Offset f then [bun.DOffset (Offset f)] else []) /\
    (Limit f = 0 -> Offset f = 0 ->
     List.filter is_limit added = [] /\ List.filter is_offset added = []) /\
    (0 < Limit f -> Offset f <= 0 ->
     AndInt f = [] -> AndInt64 f = [] -> AndString f = [] ->
     OrInt f = [] -> OrInt64 f = [] -> OrString f = [] ->
     WhereInt f = [] -> WhereInt64 f = [] -> WhereString f = [] ->
     added = [bun.DLimit (Limit f)]).
Proof.
  intros Hq. exists (filter_directives f).
  split; [by apply applyFilter_live|].
  assert (Hlim : forall n, In (bun.DLimit n) (filter_directives f)
                           <-> 0 < Limit f /\ n = Limit f).
  { intros n. transitivity (In (bun.DLimit n) (List.filter is_limit (filter_directives f))).
    - rewrite List.filter_In. simpl. tauto.
    - rewrite limit_filter. unfold limit_clause.
      destruct (Z.ltb_spec 0 (Limit f)) as [Hpos|Hnpos]; simpl.
      + split; [intros [[= <-]|[]]; auto | intros [_ ->]; auto].
      + split; [tauto | lia]. }
  assert (Hoff : forall n, In (bun.DOffset n) (filter_directives f)
                           <-> 0 < Offset f /\ n = Offset f).
  { intros n. transitivity (In (bun.DOffset n) (List.filter is_offset (filter_directives f))).
    - rewrite List.filter_In. simpl. tauto.
    - rewrite offset_filter. unfold offset_clause.
      destruct (Z.ltb_spec 0 (Offset f)) as [Hpos|Hnpos]; simpl.
      + split; [intros [[= <-]|[]]; auto | intros [_ ->]; auto].
      + split; [tauto | lia]. }
  split; [exact Hlim|]. split; [exact Hoff|].
  split; [apply limit_filter|]. split; [apply offset_filter|].
  split.
  - intros HL HO. rewrite limit_filter, offset_filter.
    unfold limit_clause, offset_clause. by rewrite HL, HO.
  - intros HL HO A1 A2 A3 O1 O2 O3 W1 W2 W3.
    unfold filter_directives, limit_clause, offset_clause, and_groups, or_groups, where_groups.
    rewrite A1, A2, A3, O1, O2, O3, W1, W2, W3.
    destruct (Z.ltb_spec 0 (Limit f)); [|lia].
    destruct (Z.ltb_spec 0 (Offset f)); [lia|]. reflexivity.
Qed.

Lemma pagination_iff_positive_witness :
  bun.heap Fixture.world1 !! 1%positive = Some [] /\
  (exists added,
     applyFilter 1%positive (Fixture.page 25 0) Fixture.world1
     = Some (1%positive, bun.set_log 1%positive ([] ++ added) Fixture.world1) /\
     added = [bun.DLimit 25]) /\
  (exists added,
     applyFilter 1%positive (Fixture.page 0 0) Fixture.world1
     = Some (1%positive, bun.set_log 1%positive ([] ++ added) Fixture.world1) /\
     List.filter is_limit added = [] /\ List.filter is_offset added = []).
Proof.
  split; [reflexivity|]. split.
  - destruct (pagination_iff_positive (Fixture.page 25 0) 1%positive Fixture.world1 [] eq_refl)
      as (added & Hrun & _ & _ & _ & _ & _ & Honly).
    exists added. split; [exact Hrun|].
    apply Honly; first [reflexivity | lia].
  - destruct (pagination_iff_positive (Fixture.page 0 0) 1%positive Fixture.world1 [] eq_refl)
      as (added & Hrun & _ & _ & _ & _ & Hzero & _).
    exists added. split; [exact Hrun|].
    apply Hzero; reflexivity.
Defined.

(** C5: a filter whose AND-groups and OR-groups are empty compiles exactly
    as the filter that carries the same conditions in its AND-groups: from
    every world and on every handle both runs end the same way. *)
Theorem where_groups_compile_as_and_groups {T} (f : Filter) (q : bun.SelectQuery)
    (w : bun.World T) :
  AndInt f = [] -> AndInt64 f = [] -> AndString f = [] ->
  OrInt f = [] -> OrInt64 f = [] -> OrString f = [] ->
  applyFilter q f w = applyFilter q (where_as_and f) w.
Proof.
  intros A1 A2 A3 O1 O2 O3. rewrite !applyFilter_replay. f_equal.
  unfold filter_directives, limit_clause, offset_clause, and_groups, or_groups, where_groups.
  simpl. rewrite A1, A2, A3, O1, O2, O3. simpl. by rewrite app_nil_r.
Qed.

Lemma where_groups_compile_as_and_groups_witness :
  log_after 1%positive (applyFilter 1%positive (WhereSlugOrId "abc" 42) Fixture.world1)
  = log_after 1%positive
      (applyFilter 1%positive (where_as_and (WhereSlugOrId "abc" 42)) Fixture.world1).
Proof.
  rewrite (where_groups_compile_as_and_groups (WhereSlugOrId "abc" 42) 1%positive
             Fixture.world1 eq_refl eq_refl eq_refl eq_refl eq_refl eq_refl).
  reflexivity.
Defined.

(** C8: compilation is deterministic.  What a handle holds after
    [applyFilter] is fixed by what it held before and by the filter, whatever
    the rest of the world is; and two handles freshly taken from [NewSelect]
    are distinct objects that hold the same calls once the same filter has
    been compiled on each. *)
Theorem compile_deterministic {T} (f : Filter) :
  (forall (w1 w2 : bun.World T) (q1 q2 : bun.SelectQuery) (log : list bun.Directive),
     bun.heap w1 !! q1 = Some log -> bun.heap w2 !! q2 = Some log ->
     exists out,
       log_after q1 (applyFilter q1 f w1) = Some out /\
       log_after q2 (applyFilter q2 f w2) = Some out) /\
  (forall w : bun.World T,
     exists q1 q2 w' out,
       (q1 <- bun.NewSelect ;; q2 <- bun.NewSelect ;;
        q1 <- applyFilter q1 f ;; q2 <- applyFilter q2 f ;;
        bun.ret (q1, q2)) w = Some ((q1, q2), w') /\
       q1 <> q2 /\
       bun.heap w' !! q1 = Some out /\ bun.heap w' !! q2 = Some out).
Proof.
  split.
  - intros w1 w2 q1 q2 log H1 H2. exists (log ++ filter_directives f).
    rewrite (applyFilter_live f q1 log w1 H1), (applyFilter_live f q2 log w2 H2).
    unfold log_after. by rewrite !set_log_lookup.
  - intros w. unfold bun.bind, bun.NewSelect. cbv zeta.
    remember (fresh (dom (bun.heap w))) as q1 eqn:Eq1.
    remember (bun.set_log q1 [] w) as w1 eqn:Ew1.
    remember (fresh (dom (bun.heap w1))) as q2 eqn:Eq2.
    assert (Hq1 : bun.heap w1 !! q1 = Some []) by (rewrite Ew1; apply set_log_lookup).
    assert (Hne : q2 <> q1).
    { intros Heq. pose proof (fresh_handle_dead w1) as Hdead.
      rewrite <- Eq2, Heq, Hq1 in Hdead. discriminate. }
    clear Eq1 Ew1 Eq2.
    exists q1, q2. eexists. exists ([] ++ filter_directives f).
    rewrite (applyFilter_live f q1 [] (bun.set_log q2 [] w1))
      by (by rewrite set_log_lookup_ne).
    rewrite (applyFilter_live f q2 [])
      by (rewrite set_log_lookup_ne by congruence; apply set_log_lookup).
    split; [reflexivity|]. split; [congruence|]. split.
    + rewrite set_log_lookup_ne by exact Hne. apply set_log_lookup.
    + apply set_log_lookup.
Qed.

Lemma compile_deterministic_witness :
  exists out,
    log_after 1%positive (applyFilter 1%positive Fixture.mixed Fixture.world1) = Some out /\
    log_after 5%positive
      (applyFilter 5%positive Fixture.mixed
         {| bun.heap := {[ 5%positive := [] ]}; bun.sent := [bun.ExecInsert 3] |}) = Some out.
Proof.
  apply (proj1 (compile_deterministic Fixture.mixed) Fixture.world1 _ 1%positive 5%positive []);
    reflexivity.
Defined.

(** * The CRUD methods *)

(** C6: from every world each of Add, Create, Update, Delete, List, Get and
    GetBy returns after sending the store exactly one call; it returns an
    error exactly when that call failed, and the error it returns wraps the
    store's error behind the prefix of the operation. *)
Theorem crud_wraps_store_failure {T} `{db : bun.DB T} (w : bun.World T) :
  (forall a, exists ret,
     CRUD.Add a w = Some (ret, bun.send (bun.ExecInsert a) w) /\
     wraps "insert error: " (bun.exec (bun.sent w) (bun.ExecInsert a)) ret) /\
  (forall a, exists ret,
     CRUD.Create a w = Some (ret, bun.send (bun.ExecInsert a) w) /\
     wraps "insert error: " (bun.exec (bun.sent w) (bun.ExecInsert a)) ret) /\
  (forall a, exists ret,
     CRUD.Update a w = Some (ret, bun.send (bun.ExecUpdate a) w) /\
     wraps "update error: " (bun.exec (bun.sent w) (bun.ExecUpdate a)) ret) /\
  (forall id, exists ret,
     CRUD.Delete id w = Some (ret, bun.send (bun.ExecDelete "id = ?" (AnyInt64 id)) w) /\
     wraps "delete error: "
       (bun.exec (bun.sent w) (bun.ExecDelete "id = ?" (AnyInt64 id))) ret) /\
  (forall f, exists results ret w' sql,
     CRUD.List f w = Some ((results, ret), w') /\
     bun.sent w' = bun.sent w ++ [bun.ScanModel sql] /\
     wraps "list error: " (snd (bun.scan_rows (bun.sent w) sql)) ret) /\
  (forall f, exists result ret w' sql,
     CRUD.Get f w = Some ((result, ret), w') /\
     bun.sent w' = bun.sent w ++ [bun.ScanModel sql] /\
     wraps "get error: " (snd (bun.scan_row (bun.sent w) sql)) ret) /\
  (forall field value, exists result ret w' sql,
     CRUD.GetBy field value w = Some ((result, ret), w') /\
     bun.sent w' = bun.sent w ++ [bun.ScanModel sql] /\
     wraps "getBy error: " (snd (bun.scan_row (bun.sent w) sql)) ret).
Proof.
  repeat split.
  - intros a. eexists. split; [apply exec_run | apply wraps_Errorf].
  - intros a. eexists. split; [apply exec_run | apply wraps_Errorf].
  - intros a. eexists. split; [apply exec_run | apply wraps_Errorf].
  - intros id. eexists. split; [apply exec_run | apply wraps_Errorf].
  - intros f. rewrite List_run.
    destruct (bun.scan_rows (bun.sent w) (list_query f)) as [rows err] eqn:Hscan.
    exists (match err with Some _ => [] | None => rows end),
           (fmt.Errorf "list error: " <$> err), (scanned (list_query f) w), (list_query f).
    split; [by destruct err|]. split; [reflexivity|].
    rewrite Hscan. apply wraps_Errorf.
  - intros f. rewrite Get_run.
    destruct (bun.scan_row (bun.sent w) (get_query f)) as [row err] eqn:Hscan.
    exists row, (fmt.Errorf "get error: " <$> err), (scanned (get_query f) w), (get_query f).
    split; [by destruct err|]. split; [reflexivity|].
    rewrite Hscan. apply wraps_Errorf.
  - intros field value. rewrite GetBy_run.
    destruct (bun.scan_row (bun.sent w) (getBy_query field value)) as [row err] eqn:Hscan.
    exists row, (fmt.Errorf "getBy error: " <$> err),
           (scanned (getBy_query field value) w), (getBy_query field value).
    split; [by destruct err|]. split; [reflexivity|].
    rewrite Hscan. apply wraps_Errorf.
Qed.

Lemma crud_wraps_store_failure_witness :
  exists e,
    @CRUD.Delete Z Fixture.empty_db 42 Fixture.world0
    = Some (Some e, bun.send (bun.ExecDelete "id = ?" (AnyInt64 42)) Fixture.world0) /\
    Unwrap e = Some ErrNoRows /\
    Error e = "delete error: sql: no rows in result set"%string.
Proof.
  destruct (@crud_wraps_store_failure Z Fixture.empty_db Fixture.world0)
    as (_ & _ & _ & Hdelete & _).
  destruct (Hdelete 42) as (ret & Hrun & _ & Hwrap).
  destruct (Hwrap ErrNoRows eq_refl) as (e & -> & Hcause & Hmsg).
  exists e. split; [exact Hrun|]. split; [exact Hcause | exact Hmsg].
Defined.

(** C7: whenever the scan that [Exists] sends to the store fails, with
    [sql.ErrNoRows] or with any other error, [Exists] returns false; the
    answer is a boolean and carries nothing of the error. *)
Theorem exists_false_on_failure {T} `{db : bun.DB T} (f : Filter) (w : bun.World T) :
  exists b w' sql,
    CRUD.Exists f w = Some (b, w') /\
    bun.sent w' = bun.sent w ++ [bun.ScanInt64 sql] /\
    (forall e, snd (bun.scan_int64 (bun.sent w) sql) = Some e -> b = false).
Proof.
  rewrite Exists_run. do 2 eexists. exists (get_query f).
  split; [reflexivity|]. split; [reflexivity|].
  intros e He. destruct (bun.scan_int64 (bun.sent w) (get_query f)) as [id err].
  simpl in He. by rewrite He.
Qed.

Lemma exists_false_on_failure_witness :
  exists w',
    @CRUD.Exists Z Fixture.empty_db (WhereIdFilter 42) Fixture.world0 = Some (false, w').
Proof.
  destruct (@exists_false_on_failure Z Fixture.empty_db (WhereIdFilter 42) Fixture.world0)
    as (b & w' & sql & Hrun & _ & Hfalse).
  exists w'. rewrite Hrun. f_equal. f_equal.
  apply (Hfalse ErrNoRows). reflexivity.
Defined.

(** C9: [Exists] returns true exactly when the scan succeeded and left a
    strictly positive id in its destination; a scan that succeeds with a
    zero or negative id gives false. *)
Theorem exists_true_iff_positive_id {T} `{db : bun.DB T} (f : Filter) (w : bun.World T) :
  exists b w' sql,
    CRUD.Exists f w = Some (b, w') /\
    bun.sent w' = bun.sent w ++ [bun.ScanInt64 sql] /\
    (b = true <->
     snd (bun.scan_int64 (bun.sent w) sql) = None /\
     0 < fst (bun.scan_int64 (bun.sent w) sql)).
Proof.
  rewrite Exists_run. do 2 eexists. exists (get_query f).
  split; [reflexivity|]. split; [reflexivity|].
  destruct (bun.scan_int64 (bun.sent w) (get_query f)) as [id [err|]]; simpl.
  - split; [discriminate | intros [? _]; discriminate].
  - rewrite Z.ltb_lt. tauto.
Qed.

(** C10: the one query [List] sends starts with the model and an
    [id DESC] ordering, set before any call of the filter, and asks for no
    other ordering; the queries of [Get] and [Exists] carry no ordering at
    all.  So a store that sorts by descending id when that is the ordering
    asked for hands [List] rows in descending id order, whatever the filter. *)
Theorem list_orders_by_id_desc {T} `{db : bun.DB T} (f : Filter) (w : bun.World T) :
  (exists r w' added,
     CRUD.List f w = Some (r, w') /\
     (forall q log, bun.heap w !! q = Some log ->
        log_after q (applyFilter q f w) = Some (log ++ added)) /\
     bun.sent w' = bun.sent w
       ++ [bun.ScanModel (bun.DModel bun.DestSlice :: bun.DOrder "id DESC" :: added)] /\
     order_by (bun.DModel bun.DestSlice :: bun.DOrder "id DESC" :: added)
     = ["id DESC"%string]) /\
  (exists r w' sql,
     CRUD.Get f w = Some (r, w') /\
     bun.sent w' = bun.sent w ++ [bun.ScanModel sql] /\
     forall s, ~ In (bun.DOrder s) sql) /\
  (exists b w' sql,
     CRUD.Exists f w = Some (b, w') /\
     bun.sent w' = bun.sent w ++ [bun.ScanInt64 sql] /\
     forall s, ~ In (bun.DOrder s) sql) /\
  (forall id_of : T -> Z, honours_id_desc id_of ->
     forall results err w',
       CRUD.List f w = Some ((results, err), w') ->
       Sorted (fun a b => id_of b <= id_of a) results).
Proof.
  assert (Hget : forall s, ~ In (bun.DOrder s) (get_query f)).
  { intros s Hin. apply order_by_In in Hin. unfold get_query in Hin.
    simpl in Hin. by rewrite order_by_filter in Hin. }
  assert (Hlist : order_by (list_query f) = ["id DESC"%string]).
  { unfold list_query. simpl. by rewrite order_by_filter. }
  split; [|split; [|split]].
  - rewrite List_run. do 2 eexists. exists (filter_directives f).
    split; [reflexivity|]. split; [|split; [reflexivity | exact Hlist]].
    intros q log Hq. rewrite (applyFilter_live f q log w Hq).
    unfold log_after. apply set_log_lookup.
  - rewrite Get_run. do 2 eexists. exists (get_query f).
    split; [reflexivity|]. split; [reflexivity | exact Hget].
  - rewrite Exists_run. do 2 eexists. exists (get_query f).
    split; [reflexivity|]. split; [reflexivity | exact Hget].
  - intros id_of Hstore results err w'. rewrite List_run. intros [= Hres _].
    pose proof (Hstore (bun.sent w) (list_query f) _ Hlist eq_refl) as Hsorted.
    destruct (bun.scan_rows (bun.sent w) (list_query f)) as [rows [e|]];
      simpl in *; inversion Hres; subst.
    + constructor.
    + by apply Hsorted.
Qed.

Lemma table_db_honours_id_desc : @honours_id_desc Z Fixture.table_db (fun row => row).
Proof.
  intros hist q rows Horder <- _. simpl. unfold Fixture.has_order. rewrite Horder.
  repeat constructor; lia.
Qed.

Lemma list_orders_by_id_desc_witness :
  exists w',
    @CRUD.List Z Fixture.table_db Fixture.mixed Fixture.world0 = Some (([3; 2; 1], None), w') /\
    Sorted (fun a b => b <= a) [3; 2; 1].
Proof.
  destruct (@list_orders_by_id_desc Z Fixture.table_db Fixture.mixed Fixture.world0)
    as (_ & _ & _ & Hsorted).
  eexists. split; [reflexivity|].
  exact (Hsorted (fun row => row) table_db_honours_id_desc _ _ _ eq_refl).
Defined.

(** * Further properties of the compiler *)


Lemma Forall_map_all {A} (P : bun.Directive -> Prop) (g : A -> bun.Directive) (xs : list A) :
  (forall x, P (g x)) -> Forall P (map g xs).
Proof.
  intros Hg. induction xs as [|x xs IH]; simpl; constructor; [apply Hg | exact IH].
Qed.

Lemma is_filter_call_directives (f : Filter) :
  Forall (fun d => is_filter_call d = true) (filter_directives f).
Proof.
  unfold filter_directives, limit_clause, offset_clause, and_groups, or_groups, where_groups.
  repeat (apply Forall_app; split);
    try (apply Forall_map_all; intros kv; reflexivity).
  - destruct (0 <? Limit f); repeat constructor.
  - destruct (0 <? Offset f); repeat constructor.
Qed.



(** X2: [applyFilter] works on the handle it is given and on nothing else:
    the calls that handle already held stay in front, every other handle of
    the world keeps its calls, and no statement is sent to the store. *)
Theorem applyFilter_frame {T} (f : Filter) (q : bun.SelectQuery) (w : bun.World T)
    (log : list bun.Directive) :
  bun.heap w !! q = Some log ->
  exists w' added,
    applyFilter q f w = Some (q, w') /\
    bun.heap w' !! q = Some (log ++ added) /\
    (forall q', q' <> q -> bun.heap w' !! q' = bun.heap w !! q') /\
    bun.sent w' = bun.sent w.
Proof.
  intros Hq. exists (bun.set_log q (log ++ filter_directives f) w), (filter_directives f).
  split; [by apply applyFilter_live|].
  split; [apply set_log_lookup|].
  split; [|reflexivity].
  intros q' Hne. apply set_log_lookup_ne. congruence.
Qed.

Lemma applyFilter_frame_witness :
  exists w',
    applyFilter 1%positive Fixture.mixed Fixture.world2 = Some (1%positive, w') /\
    bun.heap w' !! 2%positive = Some [bun.DOrder "id DESC"] /\
    bun.sent w' = [bun.ExecInsert 3].
Proof.
  assert (Hq : bun.heap Fixture.world2 !! 1%positive = Some [bun.DModel bun.DestStruct])
    by (vm_compute; reflexivity).
  destruct (applyFilter_frame Fixture.mixed 1%positive Fixture.world2 _ Hq)
    as (w' & added & Hrun & _ & Hothers & Hsent).
  exists w'. split; [exact Hrun|]. split; [|exact Hsent].
  rewrite (Hothers 2%positive) by discriminate. vm_compute. reflexivity.
Defined.

(** X3: every call [applyFilter] makes is a limit, an offset, a [Where] or a
    [WhereOr]: it never sets the model and never asks for an ordering. *)
Theorem applyFilter_makes_only_filter_calls {T} (f : Filter) (q : bun.SelectQuery)
    (w : bun.World T) (log : list bun.Directive) :
  bun.heap w !! q = Some log ->
  exists added,
    applyFilter q f w = Some (q, bun.set_log q (log ++ added) w) /\
    Forall (fun d => is_filter_call d = true) added /\
    (forall d, In (bun.DModel d) added -> False) /\
    (forall s, In (bun.DOrder s) added -> False).
Proof.
  intros Hq. exists (filter_directives f).
  split; [by apply applyFilter_live|].
  pose proof (is_filter_call_directives f) as Hall.
  split; [exact Hall|].
  rewrite Forall_forall in Hall.
  split; intros x Hin; apply list_elem_of_In, Hall in Hin; discriminate.
Qed.

Lemma applyFilter_makes_only_filter_calls_witness :
  exists added,
    applyFilter 1%positive Fixture.mixed Fixture.world1
    = Some (1%positive, bun.set_log 1%positive ([] ++ added) Fixture.world1) /\
    Forall (fun d => is_filter_call d = true) added.
Proof.
  destruct (applyFilter_makes_only_filter_calls Fixture.mixed 1%positive Fixture.world1 []
              eq_refl) as (added & Hrun & Hall & _).
  exists added. split; [exact Hrun | exact Hall].
Defined.

(** X4: compiling one filter after another on the same handle appends what
    the first appends alone, then what the second appends alone; what a
    filter appends does not depend on what the handle already holds.  So
    compiling a filter twice repeats its calls. *)
Theorem applyFilter_composes {T} (f g : Filter) (q : bun.SelectQuery) (w : bun.World T)
    (log : list bun.Directive) :
  bun.heap w !! q = Some log ->
  exists a b,
    applyFilter q f w = Some (q, bun.set_log q (log ++ a) w) /\
    applyFilter q g w = Some (q, bun.set_log q (log ++ b) w) /\
    (query <- applyFilter q f ;; applyFilter query g) w
    = Some (q, bun.set_log q (log ++ a ++ b) w).
Proof.
  intros Hq. exists (filter_directives f), (filter_directives g).
  split; [by apply applyFilter_live|]. split; [by apply applyFilter_live|].
  unfold bun.bind. rewrite (applyFilter_live f q log w Hq).
  rewrite (applyFilter_live g q (log ++ filter_directives f)) by apply set_log_lookup.
  by rewrite set_log_twice, <- app_assoc.
Qed.

Lemma applyFilter_composes_witness :
  log_after 1%positive
    ((query <- applyFilter 1%positive (WhereIdFilter 42) ;;
      applyFilter query (WhereIdFilter 42)) Fixture.world1)
  = Some [ bun.DWhere "id = ?" (AnyInt64 42); bun.DWhere "id = ?" (AnyInt64 42) ].
Proof.
  destruct (applyFilter_composes (WhereIdFilter 42) (WhereIdFilter 42) 1%positive
              Fixture.world1 [] eq_refl) as (a & b & Ha & Hb & Hab).
  rewrite Hab. unfold log_after. rewrite set_log_lookup.
  assert (Hlog : forall c, applyFilter 1%positive (WhereIdFilter 42) Fixture.world1
                           = Some (1%positive, bun.set_log 1%positive ([] ++ c) Fixture.world1) ->
                           c = [bun.DWhere "id = ?" (AnyInt64 42)]).
  { intros c Hc.
    assert (Hl : log_after 1%positive
                   (applyFilter 1%positive (WhereIdFilter 42) Fixture.world1) = Some c).
    { rewrite Hc. unfold log_after. apply set_log_lookup. }
    vm_compute in Hl. by injection Hl. }
  by rewrite (Hlog a Ha), (Hlog b Hb).
Defined.

(** X5: each of the one-condition filters compiles to exactly one
    conjunctive predicate on its column, with the value as bound argument. *)
Theorem one_condition_filters_compile {T} (email slug : string) (id : Z)
    (q : bun.SelectQuery) (w : bun.World T) (log : list bun.Directive) :
  bun.heap w !! q = Some log ->
  applyFilter q (WhereEmailFilter email) w
  = Some (q, bun.set_log q (log ++ [bun.DWhere "email = ?" (AnyString email)]) w) /\
  applyFilter q (WhereIdFilter id) w
  = Some (q, bun.set_log q (log ++ [bun.DWhere "id = ?" (AnyInt64 id)]) w) /\
  applyFilter q (WhereSlugFilter slug) w
  = Some (q, bun.set_log q (log ++ [bun.DWhere "slug = ?" (AnyString slug)]) w).
Proof.
  intros Hq. rewrite !(applyFilter_live _ q log w Hq). by repeat split.
Qed.

Lemma one_condition_filters_compile_witness :
  log_after 1%positive (applyFilter 1%positive (WhereEmailFilter "a@b.c") Fixture.world1)
  = Some [bun.DWhere "email = ?" (AnyString "a@b.c")].
Proof.
  rewrite (proj1 (one_condition_filters_compile "a@b.c" "s" 7 1%positive Fixture.world1 []
                    eq_refl)).
  reflexivity.
Defined.

(** X6: for every slug and id, [WhereSlugOrId] compiles to two conjunctive
    predicates, [id = ?] first and [slug = ?] second, and to no disjunctive
    one: both conditions must hold. *)
Theorem WhereSlugOrId_is_a_conjunction {T} (slug : string) (id : Z)
    (q : bun.SelectQuery) (w : bun.World T) (log : list bun.Directive) :
  bun.heap w !! q = Some log ->
  exists added,
    applyFilter q (WhereSlugOrId slug id) w = Some (q, bun.set_log q (log ++ added) w) /\
    added = [bun.DWhere "id = ?" (AnyInt64 id); bun.DWhere "slug = ?" (AnyString slug)] /\
    List.filter is_disjunctive added = [].
Proof.
  intros Hq. eexists. split; [by apply applyFilter_live|]. by split.
Qed.

Lemma WhereSlugOrId_is_a_conjunction_witness :
  exists added,
    applyFilter 1%positive (WhereSlugOrId "go" 9) Fixture.world1
    = Some (1%positive, bun.set_log 1%positive ([] ++ added) Fixture.world1) /\
    added = [bun.DWhere "id = ?" (AnyInt64 9); bun.DWhere "slug = ?" (AnyString "go")] /\
    List.filter is_disjunctive added = [].
Proof.
  apply (WhereSlugOrId_is_a_conjunction "go" 9 1%positive Fixture.world1 []). reflexivity.
Defined.

(** * Further properties of the CRUD methods *)

(** X7: [List] hands out all the rows of a scan or none: with an error it
    returns the nil slice, whatever the scan had already read, and without
    one it returns the scanned rows as they are. *)
Theorem List_rows_all_or_none {T} `{db : bun.DB T} (f : Filter) (w : bun.World T) :
  exists results err w' sql,
    CRUD.List f w = Some ((results, err), w') /\
    bun.sent w' = bun.sent w ++ [bun.ScanModel sql] /\
    (err <> None -> results = []) /\
    (err = None -> results = fst (bun.scan_rows (bun.sent w) sql)).
Proof.
  rewrite List_run.
  destruct (bun.scan_rows (bun.sent w) (list_query f)) as [rows [e|]] eqn:Hscan;
    do 3 eexists; exists (list_query f);
    (split; [reflexivity|]); (split; [reflexivity|]); rewrite Hscan; by split.
Qed.

Lemma List_rows_all_or_none_witness :
  exists e w',
    @CRUD.List Z Fixture.flaky_db Fixture.mixed Fixture.world0 = Some (([], Some e), w').
Proof.
  destruct (@List_rows_all_or_none Z Fixture.flaky_db Fixture.mixed Fixture.world0)
    as (results & err & w' & sql & Hrun & _ & Hnil & _).
  assert (Herr : exists e, err = Some e).
  { vm_compute in Hrun. injection Hrun as _ <- _. eauto. }
  destruct Herr as (e & ->). exists e, w'.
  rewrite Hrun. by rewrite Hnil.
Defined.

(** X8: [Get] and [GetBy] return the record as the scan left it, also when
    they return an error. *)
Theorem Get_returns_scanned_record {T} `{db : bun.DB T} (w : bun.World T) :
  (forall f, exists result err w' sql,
     CRUD.Get f w = Some ((result, err), w') /\
     bun.sent w' = bun.sent w ++ [bun.ScanModel sql] /\
     result = fst (bun.scan_row (bun.sent w) sql)) /\
  (forall field value, exists result err w' sql,
     CRUD.GetBy field value w = Some ((result, err), w') /\
     bun.sent w' = bun.sent w ++ [bun.ScanModel sql] /\
     result = fst (bun.scan_row (bun.sent w) sql)).
Proof.
  split.
  - intros f. rewrite Get_run.
    destruct (bun.scan_row (bun.sent w) (get_query f)) as [row [e|]] eqn:Hscan;
      do 3 eexists; exists (get_query f);
      (split; [reflexivity|]); (split; [reflexivity|]); by rewrite Hscan.
  - intros field value. rewrite GetBy_run.
    destruct (bun.scan_row (bun.sent w) (getBy_query field value)) as [row [e|]] eqn:Hscan;
      do 3 eexists; exists (getBy_query field value);
      (split; [reflexivity|]); (split; [reflexivity|]); by rewrite Hscan.
Qed.

(** X9: no CRUD method touches a query handle that already exists: the
    select methods build their query on a handle of their own. *)
Theorem crud_keeps_existing_handles {T} `{db : bun.DB T} (w : bun.World T)
    (q : bun.SelectQuery) (log : list bun.Directive) :
  bun.heap w !! q = Some log ->
  (forall a, log_after q (CRUD.Add a w) = Some log) /\
  (forall a, log_after q (CRUD.Create a w) = Some log) /\
  (forall a, log_after q (CRUD.Update a w) = Some log) /\
  (forall id, log_after q (CRUD.Delete id w) = Some log) /\
  (forall f, log_after q (CRUD.List f w) = Some log) /\
  (forall f, log_after q (CRUD.Get f w) = Some log) /\
  (forall f, log_after q (CRUD.Exists f w) = Some log) /\
  (forall field value, log_after q (CRUD.GetBy field value w) = Some log).
Proof.
  intros Hq.
  assert (Hne : fresh (dom (bun.heap w)) <> q).
  { intros Heq. pose proof (fresh_handle_dead w) as Hdead.
    rewrite Heq, Hq in Hdead. discriminate. }
  assert (Hkept : forall sql c,
            bun.heap (bun.send c (bun.set_log (fresh (dom (bun.heap w))) sql w)) !! q
            = Some log).
  { intros sql c. unfold bun.send; simpl. by rewrite lookup_insert_ne. }
  repeat split; intros.
  - unfold CRUD.Add. by rewrite exec_run.
  - unfold CRUD.Create. by rewrite exec_run.
  - unfold CRUD.Update. by rewrite exec_run.
  - unfold CRUD.Delete. by rewrite exec_run.
  - rewrite List_run. apply Hkept.
  - rewrite Get_run. apply Hkept.
  - rewrite Exists_run. apply Hkept.
  - rewrite GetBy_run. apply Hkept.
Qed.

Lemma crud_keeps_existing_handles_witness :
  log_after 2%positive (@CRUD.List Z Fixture.table_db Fixture.mixed Fixture.world2)
  = Some [bun.DOrder "id DESC"].
Proof.
  assert (Hq : bun.heap Fixture.world2 !! 2%positive = Some [bun.DOrder "id DESC"])
    by (vm_compute; reflexivity).
  destruct (@crud_keeps_existing_handles Z Fixture.table_db Fixture.world2 2%positive _ Hq)
    as (_ & _ & _ & _ & Hlist & _).
  apply Hlist.
Defined.

(** X10: [GetBy] on a column is [Get] with the one-condition filter of that
    column: both send the store the same statement, leave the same world and
    return the same record, and they fail together on the same cause; only
    the prefix of the error differs. *)
Theorem GetBy_agrees_with_Get {T} `{db : bun.DB T} (w : bun.World T) :
  (forall id, exists result cause w',
     CRUD.Get (WhereIdFilter id) w
     = Some ((result, fmt.Errorf "get error: " <$> cause), w') /\
     CRUD.GetBy "id" (AnyInt64 id) w
     = Some ((result, fmt.Errorf "getBy error: " <$> cause), w')) /\
  (forall email, exists result cause w',
     CRUD.Get (WhereEmailFilter email) w
     = Some ((result, fmt.Errorf "get error: " <$> cause), w') /\
     CRUD.GetBy "email" (AnyString email) w
     = Some ((result, fmt.Errorf "getBy error: " <$> cause), w')) /\
  (forall slug, exists result cause w',
     CRUD.Get (WhereSlugFilter slug) w
     = Some ((result, fmt.Errorf "get error: " <$> cause), w') /\
     CRUD.GetBy "slug" (AnyString slug) w
     = Some ((result, fmt.Errorf "getBy error: " <$> cause), w')).
Proof.
  repeat split; intros x; rewrite Get_run, GetBy_run.
  - change (get_query (WhereIdFilter x)) with (getBy_query "id" (AnyInt64 x)).
    destruct (bun.scan_row (bun.sent w) (getBy_query "id" (AnyInt64 x))) as [row cause].
    exists row, cause. eexists. by destruct cause.
  - change (get_query (WhereEmailFilter x)) with (getBy_query "email" (AnyString x)).
    destruct (bun.scan_row (bun.sent w) (getBy_query "email" (AnyString x))) as [row cause].
    exists row, cause. eexists. by destruct cause.
  - change (get_query (WhereSlugFilter x)) with (getBy_query "slug" (AnyString x)).
    destruct (bun.scan_row (bun.sent w) (getBy_query "slug" (AnyString x))) as [row cause].
    exists row, cause. eexists. by destruct cause.
Qed.

(** X11: for one filter, [Get] and [Exists] send the same query, the model
    followed by the filter's calls, and [List] sends those same calls behind
    its slice model and its ordering. *)
Theorem select_methods_share_selection {T} `{db : bun.DB T} (f : Filter) (w : bun.World T) :
  exists sel,
    (forall q log, bun.heap w !! q = Some log ->
       log_after q (applyFilter q f w) = Some (log ++ sel)) /\
    (exists r w', CRUD.Get f w = Some (r, w') /\
       bun.sent w' = bun.sent w ++ [bun.ScanModel (bun.DModel bun.DestStruct :: sel)]) /\
    (exists b w', CRUD.Exists f w = Some (b, w') /\
       bun.sent w' = bun.sent w ++ [bun.ScanInt64 (bun.DModel bun.DestStruct :: sel)]) /\
    (exists r w', CRUD.List f w = Some (r, w') /\
       bun.sent w' = bun.sent w
         ++ [bun.ScanModel (bun.DModel bun.DestSlice :: bun.DOrder "id DESC" :: sel)]).
Proof.
  exists (filter_directives f). split; [|split; [|split]].
  - intros q log Hq. rewrite (applyFilter_live f q log w Hq).
    unfold log_after. apply set_log_lookup.
  - rewrite Get_run. do 2 eexists. by split.
  - rewrite Exists_run. do 2 eexists. by split.
  - rewrite List_run. do 2 eexists. by split.
Qed.

Lemma select_methods_share_selection_witness :
  exists sel,
    log_after 1%positive (applyFilter 1%positive (WhereIdFilter 42) Fixture.world1)
    = Some ([] ++ sel) /\
    exists r w',
      @CRUD.Exists Z Fixture.table_db (WhereIdFilter 42) Fixture.world1 = Some (r, w') /\
      bun.sent w' = [] ++ [bun.ScanInt64 (bun.DModel bun.DestStruct :: sel)].
Proof.
  destruct (@select_methods_share_selection Z Fixture.table_db (WhereIdFilter 42)
              Fixture.world1) as (sel & Hsel & _ & Hexists & _).
  exists sel. split; [apply (Hsel 1%positive []); reflexivity | exact Hexists].
Defined.
